(** * chaos4: the snap-dynamics solver and the Poincare section extractor

    A shallow embedding of [chaos4/integrators/solver.py] (class [Solver])
    and of [Visualizer.poincare_section] from [chaos4/viz/plotting.py].

    NumPy arrays are mutable objects that the code passes by reference, so
    the solver is embedded over an explicit store of arrays: a state vector
    is a location, [np.array] and the arithmetic operators allocate, and the
    sliced [+=] of the symplectic sub-step writes through the reference.

    The arithmetic is kept abstract behind the class [Scalar]; the code runs
    in IEEE binary64 (the kernel's primitive floats, what a NumPy float64
    array holds). Exact rationals are a second instance, used only to say
    on which side of the threshold the states of a crossing lie. *)

From Stdlib Require Import ZArith QArith Qround Floats String Lia Lqa.
From stdpp Require Import base option list.

Local Open Scope Z_scope.

(** ** Scalars *)

(** What [npy_ceil] followed by the conversion to an array length yields. *)
Inductive rounded :=
  | RNaN           (* not a number: "cannot compute length" *)
  | ROut           (* outside the range of array lengths *)
  | RInt (n : Z).

Class Scalar (F : Type) := {
  fofZ : Z -> F;           (* an integer literal or an [int] operand *)
  fadd : F -> F -> F;
  fsub : F -> F -> F;
  fmul : F -> F -> F;
  fdiv : F -> F -> F;
  fopp : F -> F;
  fltb : F -> F -> bool;
  feqb : F -> F -> bool;
  fceil : F -> rounded;
  cbrt2 : F                (* the value of [2.0**(1.0/3.0)] *)
}.

Declare Scope sc_scope.
Delimit Scope sc_scope with sc.
Infix "+!" := fadd (at level 50, left associativity) : sc_scope.
Infix "-!" := fsub (at level 50, left associativity) : sc_scope.
Infix "*!" := fmul (at level 40, left associativity) : sc_scope.
Infix "/!" := fdiv (at level 40, left associativity) : sc_scope.
Infix "<!" := fltb (at level 70, no associativity) : sc_scope.
Notation "#! n" := (fofZ n%Z) (at level 9, n at level 9, format "#! n") : sc_scope.

(** ** Errors *)

Inductive exn :=
  | IndexError
  | ArangeError  (* [np.arange] refused to build the grid; the class raised
                    is ZeroDivisionError or ValueError, depending on
                    whether the arguments are Python numbers or NumPy
                    scalars *)
  | BadObject.   (* a reference that holds no array of the expected shape *)

Inductive result (A : Type) :=
  | Ok (a : A)
  | Err (e : exn).
Arguments Ok {A} a.
Arguments Err {A} e.

Definition rbind {A B} (r : result A) (k : A -> result B) : result B :=
  match r with
  | Ok a => k a
  | Err e => Err e
  end.

Notation "'let?' x ':=' r 'in' k" := (rbind r (fun x => k))
  (at level 10, x name, r at level 100, k at level 200).

(** [xs[i]] for an index the loops keep non-negative. *)
Definition getitem {A} (xs : list A) (i : nat) : result A :=
  match xs !! i with
  | Some a => Ok a
  | None => Err IndexError
  end.

(** ** State vectors and the store *)

(** References are positions in the store; the store only grows. *)
Abbreviation loc := nat (only parsing).

Section Model.
Context {F : Type} `{Scalar F}.
Local Open Scope sc_scope.

(** A float array of shape (4,): [[x, v, a, j]]. *)
Record State := mkState { s_x : F; s_v : F; s_a : F; s_j : F }.

(** An array object: a state vector, or an (n, 4) matrix of states. *)
Inductive ndarray :=
  | Vec (s : State)
  | Mat (rows : list State).

Local Abbreviation heap := (list ndarray) (only parsing).

(** Store-passing computations that may raise. *)
Definition M (A : Type) : Type := heap -> result (A * heap).

Definition ret {A} (a : A) : M A := fun h => Ok (a, h).
Definition bind {A B} (m : M A) (k : A -> M B) : M B :=
  fun h => match m h with
           | Ok (a, h') => k a h'
           | Err e => Err e
           end.
Definition lift {A} (r : result A) : M A :=
  fun h => match r with
           | Ok a => Ok (a, h)
           | Err e => Err e
           end.

#[local] Notation "'let!' x ':=' m 'in' k" := (bind m (fun x => k))
  (at level 10, x name, m at level 100, k at level 200).
#[local] Notation "'do!' m 'in' k" := (bind m (fun _ => k))
  (at level 10, m at level 100, k at level 200).

Definition alloc (o : ndarray) : M loc :=
  fun h => Ok (length h, h ++ [o]).

Definition load_vec (l : loc) : M State :=
  fun h => match h !! l with
           | Some (Vec s) => Ok (s, h)
           | _ => Err BadObject
           end.

Definition store_vec (l : loc) (s : State) : M unit :=
  fun h => match h !! l with
           | Some (Vec _) => Ok (tt, <[l := Vec s]> h)
           | _ => Err BadObject
           end.

(** [m[i] = y] for a matrix [m]: the four values of [y] are copied into
    row [i]; no reference to [y] is kept. *)
Definition store_row (m : loc) (i : nat) (y : loc) : M unit :=
  let! s := load_vec y in
  fun h => match h !! m with
           | Some (Mat rows) =>
               if decide (i < length rows)%nat
               then Ok (tt, <[m := Mat (<[i := s]> rows)]> h)
               else Err IndexError
           | _ => Err BadObject
           end.

(** ** Elementwise arithmetic on state vectors *)

Definition vmap (f : F -> F) (s : State) : State :=
  mkState (f (s_x s)) (f (s_v s)) (f (s_a s)) (f (s_j s)).

Definition vzip (f : F -> F -> F) (s1 s2 : State) : State :=
  mkState (f (s_x s1) (s_x s2)) (f (s_v s1) (s_v s2))
          (f (s_a s1) (s_a s2)) (f (s_j s1) (s_j s2)).

Definition vadd : State -> State -> State := vzip fadd.     (* u + w *)
Definition vsub : State -> State -> State := vzip fsub.     (* u - w *)
Definition smulv (c : F) : State -> State := vmap (fmul c). (* c * u *)
Definition vmuls (s : State) (c : F) : State := vmap (fun e => e *! c) s. (* u * c *)
Definition vdivs (s : State) (c : F) : State := vmap (fun e => e /! c) s. (* u / c *)

(** ** Solver *)

Section Solver.
(** [self.snap_func]: f(x, v, a, j, t). *)
Variable snap_func : F -> F -> F -> F -> F -> F.

(** [Solver._state_derivative] *)
Definition _state_derivative (y : loc) (t : F) : M loc :=
  let! s := load_vec y in
  let '(mkState x1 x2 x3 x4) := s in
  alloc (Vec (mkState x2 x3 x4 (snap_func x1 x2 x3 x4 t))).

(** A binary array expression: both operands are read, the result is a new
    array. *)
Definition new_from2 (f : State -> State -> State) (p q : loc) : M loc :=
  let! a := load_vec p in
  let! b := load_vec q in
  alloc (Vec (f a b)).

(** [Solver.rk4_step] *)
Definition rk4_step (y : loc) (t dt : F) : M loc :=
  let! k1 := _state_derivative y t in
  let! a2 := new_from2 (fun yv k => vadd yv (vdivs (vmuls k dt) #!2)) y k1 in
  let! k2 := _state_derivative a2 (t +! dt /! #!2) in
  let! a3 := new_from2 (fun yv k => vadd yv (vdivs (vmuls k dt) #!2)) y k2 in
  let! k3 := _state_derivative a3 (t +! dt /! #!2) in
  let! a4 := new_from2 (fun yv k => vadd yv (vmuls k dt)) y k3 in
  let! k4 := _state_derivative a4 (t +! dt) in
  let! yv := load_vec y in
  let! k1v := load_vec k1 in
  let! k2v := load_vec k2 in
  let! k3v := load_vec k3 in
  let! k4v := load_vec k4 in
  alloc (Vec (vadd yv
    (smulv (dt /! #!6)
       (vadd (vadd (vadd k1v (smulv #!2 k2v)) (smulv #!2 k3v)) k4v)))).

(** [y[0:3] += c * y[1:4]]: the right-hand side is evaluated into a
    temporary first, then added into the first three slots of [y]. *)
Definition drift_inplace (y : loc) (c : F) : M unit :=
  let! s := load_vec y in
  let '(t0, t1, t2) := (c *! s_v s, c *! s_a s, c *! s_j s) in
  store_vec y (mkState (s_x s +! t0) (s_v s +! t1) (s_a s +! t2) (s_j s)).

(** [Solver._forest_ruth_substep] *)
Definition _forest_ruth_substep (y : loc) (t dt_pos dt_vel : F) : M loc :=
  do! drift_inplace y dt_pos in
  let! s := load_vec y in
  do! store_vec y (mkState (s_x s) (s_v s) (s_a s)
     (s_j s +! dt_vel *! snap_func (s_x s) (s_v s) (s_a s) (s_j s) t)) in
  ret y.

(** [Solver.symplectic_step] *)
Definition symplectic_step (y : loc) (t dt : F) : M loc :=
  let theta := #!1 /! (#!2 -! cbrt2) in
  let! y := _forest_ruth_substep y t (theta *! dt /! #!2) (theta *! dt) in
  let! y := _forest_ruth_substep y (t +! theta *! dt)
         ((#!1 -! theta) *! dt /! #!2) ((#!1 -! #!2 *! theta) *! dt) in
  let! y := _forest_ruth_substep y (t +! (#!1 -! theta) *! dt)
         ((#!1 -! theta) *! dt /! #!2) (theta *! dt) in
  do! drift_inplace y (theta *! dt /! #!2) in
  ret y.

(** [np.arange(start, stop, step)]: [ceil((stop - start)/step)] values; the
    first is [start], the second [start + step], and the i-th is
    [start + i*delta] with [delta = (start + step) - start]. *)
Definition arange_item (start step : F) (i : nat) : F :=
  match i with
  | O => start
  | S O => start +! step
  | _ => start +! #!(Z.of_nat i) *! ((start +! step) -! start)
  end.

(** With a zero step the computation of the length fails (the division
    raises for Python numbers, and gives an infinity or a NaN that the
    conversion to a length refuses for NumPy scalars); a length that is not
    a number or does not fit an array size is refused too; a length of zero
    or less gives the empty grid. *)
Definition arange (start stop step : F) : result (list F) :=
  if feqb step #!0 then Err ArangeError
  else match fceil ((stop -! start) /! step) with
       | RNaN => Err ArangeError
       | ROut => Err ArangeError
       | RInt n => Ok (map (arange_item start step) (seq 0 (Z.to_nat n)))
       end.

(** [for i in idx: s = body(i, s)] *)
Fixpoint for_loop {S : Type} (body : nat -> S -> M S) (idx : list nat) (s : S)
  : M S :=
  match idx with
  | [] => ret s
  | i :: idx' => let! s' := body i s in for_loop body idx' s'
  end.

Definition zero_state : State := mkState #!0 #!0 #!0 #!0.

(** The body of the loop of [solve]:
    [states[i] = y; y = step_func(y, t_values[i], dt)]. *)
Definition solve_body (step_func : loc -> F -> F -> M loc) (states : loc)
    (t_values : list F) (dt : F) (i : nat) (y : loc) : M loc :=
  do! store_row states i y in
  let! t := lift (getitem t_values i) in
  step_func y t dt.

Definition step_of (method : string) : loc -> F -> F -> M loc :=
  if String.eqb method "rk4" then rk4_step else symplectic_step.

(** [Solver.solve]; [y0] is the caller's array, the result is the time grid
    and the reference of the (n_steps, 4) matrix of recorded states. *)
Definition solve (y0 : loc) (t_span : F * F) (dt : F) (method : string)
  : M (list F * loc) :=
  let '(t_start, t_end) := t_span in
  let! t_values := lift (arange t_start t_end dt) in
  let n_steps := length t_values in
  let! states := alloc (Mat (replicate n_steps zero_state)) in
  let! y := (let! y0v := load_vec y0 in alloc (Vec y0v)) in
  let step_func := step_of method in
  let! _ := for_loop (solve_body step_func states t_values dt)
                     (seq 0 n_steps) y in
  ret (t_values, states).

End Solver.

(** ** Poincare section *)

(** [s[i]] for a vector of four components and a Python integer index:
    negative indices count from the end. *)
Definition getitem4 (s : State) (i : Z) : result F :=
  let k := if (i <? 0)%Z then (i + 4)%Z else i in
  match k with
  | 0%Z => Ok (s_x s)
  | 1%Z => Ok (s_v s)
  | 2%Z => Ok (s_a s)
  | 3%Z => Ok (s_j s)
  | _ => Err IndexError
  end.

(** One iteration of the scan of [Visualizer.poincare_section]. *)
Definition section_body (states : list State) (plane_idx : Z)
    (crossing_val : F) (direction : Z) (i : nat) (ps_points : list State)
  : result (list State) :=
  let? s1 := getitem states i in
  let? s2 := getitem states (i + 1) in
  let? a := getitem4 s1 plane_idx in
  let? b := getitem4 s2 plane_idx in
  if (a -! crossing_val) *! (b -! crossing_val) <! #!0 then
    if #!0 <! #!direction *! (b -! a) then
      let t := (crossing_val -! a) /! (b -! a) in
      let point := vadd s1 (smulv t (vsub s2 s1)) in
      Ok (ps_points ++ [point])
    else Ok ps_points
  else Ok ps_points.

Fixpoint section_loop (body : nat -> list State -> result (list State))
    (idx : list nat) (ps_points : list State) : result (list State) :=
  match idx with
  | [] => Ok ps_points
  | i :: idx' => let? ps := body i ps_points in section_loop body idx' ps
  end.

(** [Visualizer.poincare_section]. The scan only reads the trajectory, so
    the matrix is taken by value. *)
Definition poincare_section (states : list State) (plane_idx : Z)
    (crossing_val : F) (direction : Z) : result (list State) :=
  section_loop (section_body states plane_idx crossing_val direction)
               (seq 0 (length states - 1)) [].

End Model.

Arguments State F : clear implicits.
Arguments ndarray F : clear implicits.
Abbreviation heap F := (list (ndarray F)) (only parsing).

Notation "'let!' x ':=' m 'in' k" := (bind m (fun x => k))
  (at level 10, x name, m at level 100, k at level 200).
Notation "'do!' m 'in' k" := (bind m (fun _ => k))
  (at level 10, m at level 100, k at level 200).

(** ** The two arithmetics *)

(** IEEE binary64, the element type of the arrays [solve] builds. *)
Module Binary64.

(** The float nearest to an integer of any size (ties to even), as the
    conversion of a Python [int] gives it; an integer beyond the range of
    floats, which Python refuses to convert, becomes an infinity here. *)
Definition of_Z (z : Z) : float :=
  SF2Prim (binary_normalize prec emax z 0 false).

(** Round up to an integer. The value is accepted as a length when it lies
    between -2^63 and 2^63 as floats; the cast to a signed 64-bit integer
    that follows wraps 2^63 itself to -2^63. *)
Definition ceil (f : float) : rounded :=
  match Prim2SF f with
  | S754_zero _ => RInt 0
  | S754_finite sgn m e =>
      let z := if sgn then Zneg m else Zpos m in
      let n := if (0 <=? e)%Z then (z * 2 ^ e)%Z
               else (- ((- z) / 2 ^ (- e)))%Z in
      if ((- 2 ^ 63 <=? n) && (n <? 2 ^ 63))%Z then RInt n
      else if (n =? 2 ^ 63)%Z then RInt (- 2 ^ 63)
      else ROut
  | S754_infinity _ => ROut
  | S754_nan => RNaN
  end.

#[export] Instance scalar : Scalar float := {|
  fofZ := of_Z;
  fadd := PrimFloat.add;
  fsub := PrimFloat.sub;
  fmul := PrimFloat.mul;
  fdiv := PrimFloat.div;
  fopp := PrimFloat.opp;
  fltb := PrimFloat.ltb;
  feqb := PrimFloat.eqb;
  fceil := ceil;
  cbrt2 := 0x1.428a2f98d728bp+0%float
|}.

Definition is_finite (f : float) : bool :=
  negb (PrimFloat.is_nan f || PrimFloat.is_infinity f).

Definition all_finite (s : State float) : bool :=
  is_finite (s_x s) && is_finite (s_v s) && is_finite (s_a s)
  && is_finite (s_j s).

End Binary64.

(** Exact rational arithmetic on the same constants. The code never runs
    in it; it serves to compare components with the threshold. *)
Module Exact.

#[export] Instance scalar : Scalar Q := {|
  fofZ := inject_Z;
  fadd := Qplus;
  fsub := Qminus;
  fmul := Qmult;
  fdiv := Qdiv;
  fopp := Qopp;
  fltb := fun p q => negb (Qle_bool q p);
  feqb := Qeq_bool;
  fceil := fun q => RInt (Qceiling q);
  cbrt2 := (0x1428a2f98d728b # 2 ^ 52)%Q
|}.

End Exact.

(** The linear oscillator of the test suite: [snap = -x]. *)
Definition linear_snap {F} `{Scalar F} (x v a j t : F) : F := fopp x.

(** Sample states, all of whose components are exact in binary64. *)
Definition sample64 : State float :=
  mkState 1%float 0.5%float 0.25%float 0.125%float.
Definition rest64 : State float := mkState 1%float 0%float 0%float 0%float.
Definition fast64 : State float := mkState 0%float 0x1p1023%float 0%float 0%float.

(** ** The steps as functions of values

    The contracts of the specification, written over state values alone:
    what one step computes from the value its argument holds. The theorems
    below relate the store-passing embedding of the code to them. *)

Section Formulas.
Context {F : Type} `{Scalar F}.
Variable snap : F -> F -> F -> F -> F -> F.
Local Open Scope sc_scope.

(** The vector field [[v, a, j, snap(x, v, a, j, t)]]. *)
Definition vector_field (s : State F) (t : F) : State F :=
  mkState (s_v s) (s_a s) (s_j s) (snap (s_x s) (s_v s) (s_a s) (s_j s) t).

(** y + (dt/6)(k1 + 2 k2 + 2 k3 + k4) *)
Definition rk4_formula (y : State F) (t dt : F) : State F :=
  let k1 := vector_field y t in
  let k2 := vector_field (vadd y (vdivs (vmuls k1 dt) #!2)) (t +! dt /! #!2) in
  let k3 := vector_field (vadd y (vdivs (vmuls k2 dt) #!2)) (t +! dt /! #!2) in
  let k4 := vector_field (vadd y (vmuls k3 dt)) (t +! dt) in
  vadd y (smulv (dt /! #!6)
                (vadd (vadd (vadd k1 (smulv #!2 k2)) (smulv #!2 k3)) k4)).

(** The eight arrays one RK4 step allocates, in order. *)
Definition rk4_allocs (y : State F) (t dt : F) : list (ndarray F) :=
  let k1 := vector_field y t in
  let a2 := vadd y (vdivs (vmuls k1 dt) #!2) in
  let k2 := vector_field a2 (t +! dt /! #!2) in
  let a3 := vadd y (vdivs (vmuls k2 dt) #!2) in
  let k3 := vector_field a3 (t +! dt /! #!2) in
  let a4 := vadd y (vmuls k3 dt) in
  let k4 := vector_field a4 (t +! dt) in
  [Vec k1; Vec a2; Vec k2; Vec a3; Vec k3; Vec a4; Vec k4;
   Vec (rk4_formula y t dt)].

(** Position drift: y[0:3] += c * y[1:4]. *)
Definition drift (c : F) (y : State F) : State F :=
  mkState (s_x y +! c *! s_v y) (s_v y +! c *! s_a y) (s_a y +! c *! s_j y)
          (s_j y).

(** Kick: y[3] += d * snap(y, t). *)
Definition kick (d t : F) (y : State F) : State F :=
  mkState (s_x y) (s_v y) (s_a y)
          (s_j y +! d *! snap (s_x y) (s_v y) (s_a y) (s_j y) t).

Definition theta : F := #!1 /! (#!2 -! cbrt2).

(** Three drift-then-kick sub-steps and a closing half-drift. *)
Definition symplectic_formula (y : State F) (t dt : F) : State F :=
  let y1 := kick (theta *! dt) t (drift (theta *! dt /! #!2) y) in
  let y2 := kick ((#!1 -! #!2 *! theta) *! dt) (t +! theta *! dt)
                 (drift ((#!1 -! theta) *! dt /! #!2) y1) in
  let y3 := kick (theta *! dt) (t +! (#!1 -! theta) *! dt)
                 (drift ((#!1 -! theta) *! dt /! #!2) y2) in
  drift (theta *! dt /! #!2) y3.

Definition step_formula (method : string) : State F -> F -> F -> State F :=
  if String.eqb method "rk4" then rk4_formula else symplectic_formula.

(** The state before the i-th step of a run that starts at [s0] at time
    [start] and steps by [dt] along the grid of [np.arange]. *)
Fixpoint state_before_with (fml : State F -> F -> F -> State F)
    (s0 : State F) (start dt : F) (i : nat) : State F :=
  match i with
  | O => s0
  | S k => fml (state_before_with fml s0 start dt k) (arange_item start dt k) dt
  end.

Definition state_before (method : string) : State F -> F -> F -> nat -> State F :=
  state_before_with (step_formula method).

(** What the loop of [solve] relies on from a stepping function: called on
    an array holding [s] it returns an array holding [fml s t dt], that
    array is the argument itself or a new one, and no other array
    changes. *)
Definition step_contract (step : loc -> F -> F -> M loc)
    (fml : State F -> F -> F -> State F) : Prop :=
  forall (h : heap F) (y : loc) (s : State F) (t dt : F),
    h !! y = Some (Vec s) ->
    exists (y' : loc) (h' : heap F),
      step y t dt h = Ok (y', h')
      /\ h' !! y' = Some (Vec (fml s t dt))
      /\ (y' = y \/ (length h <= y')%nat)
      /\ (forall (l : loc) (o : ndarray F),
             l <> y -> h !! l = Some o -> h' !! l = Some o).

(** [solve] interrupted after at most [k] iterations of its loop. *)
Definition solve_upto (k : nat) (y0 : loc) (t_span : F * F) (dt : F)
    (method : string) : M (list F * loc) :=
  let '(t_start, t_end) := t_span in
  let! t_values := lift (arange t_start t_end dt) in
  let n_steps := length t_values in
  let! states := alloc (Mat (replicate n_steps zero_state)) in
  let! y := (let! y0v := load_vec y0 in alloc (Vec y0v)) in
  let! _ := for_loop (solve_body (step_of snap method) states t_values dt)
                     (seq 0 (Nat.min k n_steps)) y in
  ret (t_values, states).

(** A consecutive pair straddles the threshold in the requested
    direction. *)
Definition crosses (idx : Z) (threshold : F) (direction : Z)
    (pair : State F * State F) : bool :=
  match getitem4 (fst pair) idx, getitem4 (snd pair) idx with
  | Ok a, Ok b =>
      ((a -! threshold) *! (b -! threshold) <! #!0)
      && (#!0 <! #!direction *! (b -! a))
  | _, _ => false
  end.

(** s1 + t (s2 - s1) with t = (threshold - s1[idx]) / (s2[idx] - s1[idx]). *)
Definition crossing_point (idx : Z) (threshold : F)
    (pair : State F * State F) : State F :=
  match getitem4 (fst pair) idx, getitem4 (snd pair) idx with
  | Ok a, Ok b =>
      vadd (fst pair)
           (smulv ((threshold -! a) /! (b -! a)) (vsub (snd pair) (fst pair)))
  | _, _ => fst pair
  end.

(** The consecutive pairs (s_i, s_{i+1}) of a trajectory, in order. *)
Fixpoint consecutive (states : list (State F)) : list (State F * State F) :=
  match states with
  | s1 :: (s2 :: _) as rest => (s1, s2) :: consecutive rest
  | _ => []
  end.

Definition section_points (states : list (State F)) (idx : Z) (threshold : F)
    (direction : Z) : list (State F) :=
  map (crossing_point idx threshold)
      (List.filter (crosses idx threshold direction) (consecutive states)).

End Formulas.

(** ** Callers: a run followed by its section *)

Section Callers.
Context {F : Type} `{Scalar F}.
Variable snap : F -> F -> F -> F -> F -> F.

(** Reading the whole (n, 4) matrix behind a reference. *)
Definition load_mat (m : loc) : M (list (State F)) :=
  fun h => match h !! m with
           | Some (Mat rows) => Ok (rows, h)
           | _ => Err BadObject
           end.

(** The computation of [main]: [t, states = solver.solve(...)] followed by
    [Visualizer.poincare_section(states, plane_idx, crossing_val)], with
    the printing and the plotting left out. *)
Definition section_of_run (y0 : loc) (t_span : F * F) (dt : F)
    (method : string) (plane_idx : Z) (crossing_val : F) (direction : Z)
  : M (list (State F)) :=
  let! r := solve snap y0 t_span dt method in
  let! states := load_mat (snd r) in
  lift (poincare_section states plane_idx crossing_val direction).

End Callers.

(** The store a computation leaves behind (empty when it raised). *)
Definition heap_after {F : Type} {A : Type}
    (r : result (A * list (ndarray F))) : list (ndarray F) :=
  match r with
  | Ok (_, h) => h
  | Err _ => []
  end.

(** ** Running the primitives of the store *)

Section StoreFacts.
Context {F : Type} `{Scalar F}.

Lemma bind_run {A B} (m : M A) (k : A -> M B) (h h' : heap F) (a : A) :
  m h = Ok (a, h') -> bind m k h = k a h'.
Proof. intros E. unfold bind. now rewrite E. Qed.

Lemma load_vec_run (h : heap F) (l : loc) (s : State F) :
  h !! l = Some (Vec s) -> load_vec l h = Ok (s, h).
Proof. intros E. unfold load_vec. now rewrite E. Qed.

Lemma store_vec_run (h : heap F) (l : loc) (s s' : State F) :
  h !! l = Some (Vec s) -> store_vec l s' h = Ok (tt, <[l := Vec s']> h).
Proof. intros E. unfold store_vec. now rewrite E. Qed.

Lemma snoc_lookup_last (h : heap F) (o : ndarray F) :
  (h ++ [o]) !! length h = Some o.
Proof. apply list_lookup_middle. reflexivity. Qed.

Lemma snoc_lookup_old (h : heap F) (o o' : ndarray F) (l : loc) :
  h !! l = Some o' -> (h ++ [o]) !! l = Some o'.
Proof. apply lookup_app_l_Some. Qed.

Lemma insert_lookup_same (h : heap F) (l : loc) (o o' : ndarray F) :
  h !! l = Some o -> <[l := o']> h !! l = Some o'.
Proof.
  intros E. apply list_lookup_insert_eq. now apply lookup_lt_Some in E.
Qed.

End StoreFacts.

Create HintDb store.
#[local] Hint Resolve snoc_lookup_last snoc_lookup_old insert_lookup_same
  : store.

(** ** Running the steps *)

Section StepFacts.
Context {F : Type} `{Scalar F}.
Variable snap : F -> F -> F -> F -> F -> F.
Local Open Scope sc_scope.

Lemma state_derivative_run (h : heap F) (y : loc) (s : State F) (t : F) :
  h !! y = Some (Vec s) ->
  _state_derivative snap y t h = Ok (length h, h ++ [Vec (vector_field snap s t)]).
Proof.
  intros E. unfold _state_derivative.
  erewrite bind_run by (apply load_vec_run; eassumption).
  now destruct s.
Qed.

Lemma new_from2_run (f : State F -> State F -> State F) (h : heap F)
    (p q : loc) (a b : State F) :
  h !! p = Some (Vec a) -> h !! q = Some (Vec b) ->
  new_from2 f p q h = Ok (length h, h ++ [Vec (f a b)]).
Proof.
  intros Ep Eq. unfold new_from2.
  erewrite bind_run by (apply load_vec_run; eassumption).
  erewrite bind_run by (apply load_vec_run; eassumption).
  reflexivity.
Qed.

Lemma rk4_step_run (h : heap F) (y : loc) (s : State F) (t dt : F) :
  h !! y = Some (Vec s) ->
  rk4_step snap y t dt h = Ok ((length h + 7)%nat, h ++ rk4_allocs snap s t dt).
Proof.
  intros E. unfold rk4_step.
  erewrite bind_run by (apply state_derivative_run; eassumption).
  erewrite bind_run by (apply new_from2_run; eauto with store).
  erewrite bind_run by (apply state_derivative_run; eauto with store).
  erewrite bind_run by (apply new_from2_run; eauto 6 with store).
  erewrite bind_run by (apply state_derivative_run; eauto with store).
  erewrite bind_run by (apply new_from2_run; eauto 8 with store).
  erewrite bind_run by (apply state_derivative_run; eauto with store).
  erewrite bind_run by (apply load_vec_run; eauto 10 with store).
  erewrite bind_run by (apply load_vec_run; eauto 10 with store).
  erewrite bind_run by (apply load_vec_run; eauto 10 with store).
  erewrite bind_run by (apply load_vec_run; eauto 10 with store).
  erewrite bind_run by (apply load_vec_run; eauto 10 with store).
  unfold alloc, rk4_allocs, rk4_formula.
  rewrite <- !app_assoc. simpl.
  rewrite !length_app. simpl.
  do 2 f_equal; lia.
Qed.

Lemma drift_inplace_run (h : heap F) (y : loc) (s : State F) (c : F) :
  h !! y = Some (Vec s) ->
  drift_inplace y c h = Ok (tt, <[y := Vec (drift c s)]> h).
Proof.
  intros E. unfold drift_inplace.
  erewrite bind_run by (apply load_vec_run; eassumption).
  simpl. erewrite store_vec_run by eassumption. reflexivity.
Qed.

Lemma forest_ruth_substep_run (h : heap F) (y : loc) (s : State F)
    (t dt_pos dt_vel : F) :
  h !! y = Some (Vec s) ->
  _forest_ruth_substep snap y t dt_pos dt_vel h
  = Ok (y, <[y := Vec (kick snap dt_vel t (drift dt_pos s))]> h).
Proof.
  intros E. unfold _forest_ruth_substep.
  erewrite bind_run by (apply drift_inplace_run; eassumption).
  erewrite bind_run by (apply load_vec_run; eauto with store).
  erewrite bind_run by (eapply store_vec_run; eauto with store).
  unfold ret. now rewrite list_insert_insert_eq.
Qed.

Lemma symplectic_step_run (h : heap F) (y : loc) (s : State F) (t dt : F) :
  h !! y = Some (Vec s) ->
  symplectic_step snap y t dt h
  = Ok (y, <[y := Vec (symplectic_formula snap s t dt)]> h).
Proof.
  intros E. unfold symplectic_step.
  erewrite bind_run by (apply forest_ruth_substep_run; eassumption).
  erewrite bind_run by (apply forest_ruth_substep_run; eauto with store).
  erewrite bind_run by (apply forest_ruth_substep_run; eauto with store).
  erewrite bind_run by (apply drift_inplace_run; eauto with store).
  unfold ret. now rewrite !list_insert_insert_eq.
Qed.

End StepFacts.

(** ** The stepping functions meet the contract of the loop *)

Section Contracts.
Context {F : Type} `{Scalar F}.
Variable snap : F -> F -> F -> F -> F -> F.

Lemma rk4_step_contract : step_contract (rk4_step snap) (rk4_formula snap).
Proof.
  intros h y s t dt E.
  exists (length h + 7)%nat, (h ++ rk4_allocs snap s t dt).
  split; [now apply rk4_step_run|].
  split.
  { rewrite lookup_app_r by lia.
    replace (length h + 7 - length h)%nat with 7%nat by lia. reflexivity. }
  split; [right; lia|].
  intros l o _ El. now apply lookup_app_l_Some.
Qed.

Lemma symplectic_step_contract :
  step_contract (symplectic_step snap) (symplectic_formula snap).
Proof.
  intros h y s t dt E.
  exists y, (<[y := Vec (symplectic_formula snap s t dt)]> h).
  split; [now apply symplectic_step_run|].
  split; [eauto with store|].
  split; [now left|].
  intros l o Hne El. now rewrite list_lookup_insert_ne.
Qed.

Lemma step_of_contract (method : string) :
  step_contract (step_of snap method) (step_formula snap method).
Proof.
  unfold step_of, step_formula.
  destruct (String.eqb method "rk4");
    [apply rk4_step_contract | apply symplectic_step_contract].
Qed.

End Contracts.

(** ** The time grid *)

Section Grid.
Context {F : Type} `{Scalar F}.
Local Open Scope sc_scope.

Lemma arange_ok_inv (start stop step : F) (tv : list F) :
  arange start stop step = Ok tv ->
  exists n : Z,
    feqb step #!0 = false
    /\ fceil ((stop -! start) /! step) = RInt n
    /\ tv = map (arange_item start step) (seq 0 (Z.to_nat n)).
Proof.
  unfold arange. destruct (feqb step #!0); [discriminate|].
  destruct (fceil _) as [| |n]; try discriminate.
  intros [= <-]. now exists n.
Qed.

Lemma arange_lookup (start stop step : F) (tv : list F) (i : nat) :
  arange start stop step = Ok tv ->
  (i < length tv)%nat -> tv !! i = Some (arange_item start step i).
Proof.
  intros E Hi. apply arange_ok_inv in E as (n & _ & _ & ->).
  rewrite length_map, length_seq in Hi.
  rewrite list_lookup_fmap, lookup_seq_lt by lia. reflexivity.
Qed.

End Grid.

(** ** The loop of [solve] *)

Section Loop.
Context {F : Type} `{Scalar F}.
Variable step : loc -> F -> F -> @M F loc.
Variable fml : State F -> F -> F -> State F.
Hypothesis step_ok : step_contract step fml.
Variables (states : loc) (t_values : list F) (start dt : F) (s0 : State F).
Hypothesis grid : forall i : nat,
  (i < length t_values)%nat -> t_values !! i = Some (arange_item start dt i).

Local Abbreviation sb := (state_before_with fml s0 start dt).

Lemma store_row_run (h : heap F) (y : loc) (s : State F)
    (rows : list (State F)) (i : nat) :
  h !! y = Some (Vec s) -> h !! states = Some (Mat rows) ->
  (i < length rows)%nat ->
  store_row states i y h = Ok (tt, <[states := Mat (<[i := s]> rows)]> h).
Proof.
  intros Ey Em Hi. unfold store_row.
  erewrite bind_run by (apply load_vec_run; eassumption).
  rewrite Em. now rewrite decide_True.
Qed.

Lemma solve_loop_run (k : nat) :
  forall (i : nat) (h : heap F) (y : loc) (rows : list (State F)),
    (i + k <= length t_values)%nat ->
    h !! states = Some (Mat rows) -> length rows = length t_values ->
    h !! y = Some (Vec (sb i)) -> (states < y)%nat ->
    exists (y' : loc) (h' : heap F) (rows' : list (State F)),
      for_loop (solve_body step states t_values dt) (seq i k) y h = Ok (y', h')
      /\ h' !! states = Some (Mat rows')
      /\ length rows' = length t_values
      /\ h' !! y' = Some (Vec (sb (i + k)%nat))
      /\ (states < y')%nat
      /\ (forall m : nat, (m < i)%nat -> rows' !! m = rows !! m)
      /\ (forall m : nat, (i <= m < i + k)%nat -> rows' !! m = Some (sb m))
      /\ (forall (l : loc) (o : ndarray F),
            (l < states)%nat -> h !! l = Some o -> h' !! l = Some o).
Proof.
  induction k as [|k IH]; intros i h y rows Hk Em Hlen Ey Hlt.
  - exists y, h, rows. simpl. rewrite Nat.add_0_r.
    repeat split; auto. intros m Hm. lia.
  - simpl.
    assert (Hne : states <> y) by lia.
    set (h1 := <[states := Mat (<[i := sb i]> rows)]> h).
    assert (E1 : h1 !! y = Some (Vec (sb i))).
    { unfold h1. now rewrite list_lookup_insert_ne. }
    destruct (step_ok h1 y (sb i) (arange_item start dt i) dt E1)
      as (y1 & h2 & Erun & Ey1 & Hfresh & Hframe).
    assert (Em1 : h1 !! states = Some (Mat (<[i := sb i]> rows))).
    { unfold h1. eauto with store. }
    assert (Hlt1 : (states < y1)%nat).
    { destruct Hfresh as [->|Hge]; [assumption|].
      apply lookup_lt_Some in Em1. lia. }
    destruct (IH (S i) h2 y1 (<[i := sb i]> rows))
      as (y' & h' & rows' & Eloop & Em' & Hlen' & Ey' & Hlt' & Hold & Hnew & Hfr);
      try assumption.
    { lia. }
    { apply Hframe; [lia | assumption]. }
    { now rewrite length_insert. }
    exists y', h', rows'.
    split.
    { erewrite bind_run; [exact Eloop|].
      unfold solve_body, bind.
      erewrite store_row_run by (try eassumption; lia).
      fold h1. unfold lift, getitem. rewrite grid by lia. exact Erun. }
    split; [assumption|]. split; [assumption|].
    split; [now replace (i + S k)%nat with (S i + k)%nat by lia|].
    split; [assumption|].
    split.
    { intros m Hm. rewrite Hold by lia. apply list_lookup_insert_ne. lia. }
    split.
    { intros m Hm. destruct (decide (m = i)) as [->|Hmi].
      - rewrite Hold by lia. apply list_lookup_insert_eq. lia.
      - apply Hnew. lia. }
    intros l o Hl El. apply Hfr; [assumption|].
    apply Hframe; [lia|]. unfold h1. rewrite list_lookup_insert_ne by lia.
    assumption.
Qed.

End Loop.

(** ** Running [solve] *)

Section SolveFacts.
Context {F : Type} `{Scalar F}.
Variable snap : F -> F -> F -> F -> F -> F.

Lemma solve_as_upto (h : heap F) (y0 : loc) (start stop dt : F)
    (method : string) (tv : list F) :
  arange start stop dt = Ok tv ->
  solve snap y0 (start, stop) dt method h
  = solve_upto snap (length tv) y0 (start, stop) dt method h.
Proof.
  intros E. unfold solve, solve_upto, bind, lift. rewrite E.
  now rewrite Nat.min_id.
Qed.

Lemma solve_upto_run (h : heap F) (y0 : loc) (s0 : State F)
    (start stop dt : F) (method : string) (tv : list F) (k : nat) :
  h !! y0 = Some (Vec s0) ->
  arange start stop dt = Ok tv ->
  exists (h' : heap F) (rows : list (State F)),
    solve_upto snap k y0 (start, stop) dt method h = Ok ((tv, length h), h')
    /\ h' !! length h = Some (Mat rows)
    /\ length rows = length tv
    /\ (forall i : nat, (i < Nat.min k (length tv))%nat ->
          rows !! i = Some (state_before snap method s0 start dt i))
    /\ (forall (l : loc) (o : ndarray F), h !! l = Some o -> h' !! l = Some o).
Proof.
  intros Ey0 E.
  set (n := length tv).
  set (h1 := h ++ [Mat (replicate n zero_state)]).
  set (h2 := h1 ++ [Vec s0]).
  destruct (solve_loop_run (step_of snap method) (step_formula snap method)
              (step_of_contract snap method) (length h) tv start dt s0
              (fun i => arange_lookup start stop dt tv i E)
              (Nat.min k n) 0%nat h2 (length h1) (replicate n zero_state))
    as (y' & h' & rows & Eloop & Em & Hlen & _ & _ & _ & Hrows & Hframe).
  { fold n. lia. }
  { unfold h2, h1. eauto with store. }
  { apply length_replicate. }
  { unfold h2. apply snoc_lookup_last. }
  { unfold h1. rewrite length_app. simpl. lia. }
  exists h', rows.
  split.
  { unfold solve_upto, bind at 1, lift. rewrite E. fold n.
    unfold bind at 1, alloc at 1. fold h1.
    erewrite bind_run.
    2:{ erewrite bind_run by (apply load_vec_run; unfold h1; eauto with store).
        reflexivity. }
    fold h2. erewrite bind_run by exact Eloop. reflexivity. }
  split; [assumption|]. split; [assumption|].
  split.
  { intros i Hi. apply Hrows. fold n in Hi. lia. }
  intros l o El. apply Hframe.
  - now apply lookup_lt_Some in El.
  - unfold h2, h1. eauto with store.
Qed.

End SolveFacts.

(** ** The scan of [poincare_section] *)

Section SectionFacts.
Context {F : Type} `{Scalar F}.
Local Open Scope sc_scope.

Lemma getitem4_in_range (s : State F) (idx : Z) :
  (-4 <= idx < 4)%Z -> exists a : F, getitem4 s idx = Ok a.
Proof.
  intros Hr.
  assert (Hc : (idx = -4 \/ idx = -3 \/ idx = -2 \/ idx = -1
                \/ idx = 0 \/ idx = 1 \/ idx = 2 \/ idx = 3)%Z) by lia.
  destruct Hc as [->|[->|[->|[->|[->|[->|[->| ->]]]]]]]; simpl; eauto.
Qed.

Lemma getitem4_out_of_range (s : State F) (idx : Z) :
  (idx < -4 \/ 4 <= idx)%Z -> getitem4 s idx = Err IndexError.
Proof.
  intros Hr. unfold getitem4.
  destruct (idx <? 0)%Z eqn:E.
  - apply Z.ltb_lt in E. destruct (idx + 4)%Z eqn:E4; try reflexivity; lia.
  - apply Z.ltb_ge in E.
    destruct idx as [|p|p]; try lia.
    do 3 (destruct p as [p|p|]; try reflexivity; try lia).
Qed.

Lemma getitem4_negative (s : State F) (idx : Z) :
  (-4 <= idx < 0)%Z -> getitem4 s idx = getitem4 s (idx + 4).
Proof.
  intros Hr. unfold getitem4.
  replace (idx <? 0)%Z with true by (symmetry; apply Z.ltb_lt; lia).
  replace (idx + 4 <? 0)%Z with false by (symmetry; apply Z.ltb_ge; lia).
  reflexivity.
Qed.

Lemma getitem_middle {A} (pre post : list A) (a : A) :
  getitem (pre ++ a :: post) (length pre) = Ok a.
Proof. unfold getitem. now rewrite list_lookup_middle. Qed.

(** One iteration on a pair whose components can be read appends the
    crossing point exactly when the pair crosses. *)
Lemma section_body_run (pre rest : list (State F)) (s1 s2 : State F)
    (idx : Z) (c : F) (d : Z) (acc : list (State F)) :
  (-4 <= idx < 4)%Z ->
  section_body (pre ++ s1 :: s2 :: rest) idx c d (length pre) acc
  = Ok (acc ++ (if crosses idx c d (s1, s2)
                then [crossing_point idx c (s1, s2)] else [])).
Proof.
  intros Hr. unfold section_body.
  rewrite getitem_middle. simpl rbind.
  replace (pre ++ s1 :: s2 :: rest) with ((pre ++ [s1]) ++ s2 :: rest)
    by now rewrite <- app_assoc.
  replace (length pre + 1)%nat with (length (pre ++ [s1]))
    by (rewrite length_app; reflexivity).
  rewrite getitem_middle. simpl rbind.
  destruct (getitem4_in_range s1 idx Hr) as [a Ea].
  destruct (getitem4_in_range s2 idx Hr) as [b Eb].
  unfold crosses, crossing_point. simpl fst. simpl snd.
  rewrite Ea, Eb. simpl rbind.
  destruct ((a -! c) *! (b -! c) <! #!0); simpl;
    [destruct (#!0 <! #!d *! (b -! a)); simpl|];
    now rewrite ?app_nil_r.
Qed.

Lemma section_loop_run (idx : Z) (c : F) (d : Z) (rest : list (State F)) :
  (-4 <= idx < 4)%Z ->
  forall (pre acc : list (State F)),
    section_loop (section_body (pre ++ rest) idx c d)
                 (seq (length pre) (length rest - 1)) acc
    = Ok (acc ++ section_points rest idx c d).
Proof.
  intros Hr. induction rest as [|s1 rest IH]; intros pre acc.
  - simpl. now rewrite app_nil_r.
  - destruct rest as [|s2 rest].
    + simpl. now rewrite app_nil_r.
    + replace (length (s1 :: s2 :: rest) - 1)%nat with (S (length rest))
        by (simpl; lia).
      simpl seq. simpl section_loop.
      rewrite section_body_run by assumption. simpl rbind.
      specialize (IH (pre ++ [s1])). rewrite <- app_assoc in IH. simpl in IH.
      rewrite length_app, Nat.sub_0_r in IH. simpl in IH.
      replace (length pre + 1)%nat with (S (length pre)) in IH by lia.
      rewrite IH. f_equal.
      unfold section_points. simpl.
      destruct (crosses idx c d (s1, s2)); simpl;
        now rewrite <- ?app_assoc, ?app_nil_r.
Qed.

Lemma consecutive_length (states : list (State F)) :
  length (consecutive states) = (length states - 1)%nat.
Proof.
  induction states as [|s1 [|s2 rest] IH]; simpl in *; try reflexivity.
  rewrite IH. lia.
Qed.

Lemma section_points_bound (states : list (State F)) (idx : Z) (c : F) (d : Z) :
  (length (section_points states idx c d) <= length states - 1)%nat.
Proof.
  unfold section_points. rewrite length_map, <- consecutive_length.
  apply List.filter_length_le.
Qed.

Lemma section_loop_ext
    (body body' : nat -> list (State F) -> result (list (State F)))
    (idx : list nat) (acc : list (State F)) :
  (forall (i : nat) (ps : list (State F)), body i ps = body' i ps) ->
  section_loop body idx acc = section_loop body' idx acc.
Proof.
  intros Hext. revert acc. induction idx as [|i idx IH]; intros acc.
  - reflexivity.
  - simpl. rewrite Hext. destruct (body' i acc) as [ps|e]; simpl; auto.
Qed.

(** With an index that no row has, the first iteration raises; without a
    pair to look at, nothing is ever indexed. *)
Lemma section_out_of_range (states : list (State F)) (idx : Z) (c : F) (d : Z) :
  (idx < -4 \/ 4 <= idx)%Z ->
  poincare_section states idx c d
  = if decide (2 <= length states)%nat then Err IndexError else Ok [].
Proof.
  intros Hr. unfold poincare_section.
  destruct states as [|s1 [|s2 rest]]; try reflexivity.
  replace (length (s1 :: s2 :: rest) - 1)%nat with (S (length rest))
    by (simpl; lia).
  rewrite decide_True by (simpl; lia).
  simpl. unfold section_body. simpl.
  now rewrite getitem4_out_of_range.
Qed.

End SectionFacts.

(** * The claims *)

Import Binary64 Exact.
Local Open Scope float_scope.
Local Open Scope sc_scope.

(** ** Vector field and single steps *)

(** C1. Called on an array holding [[x, v, a, j]] at time [t], the reduction
    [_state_derivative] returns a new array holding exactly
    [[v, a, j, snap(x, v, a, j, t)]]: the last three components of the input
    copied unchanged, then the snap function evaluated at (x, v, a, j, t).
    Nothing else in the store changes. *)
Theorem state_derivative_is_vector_field {F : Type} `{Scalar F}
    (snap : F -> F -> F -> F -> F -> F) (h : heap F) (y : loc)
    (x v a j t : F) :
  h !! y = Some (Vec (mkState x v a j)) ->
  _state_derivative snap y t h
  = Ok (length h, h ++ [Vec (mkState v a j (snap x v a j t))]).
Proof.
  intros E. now rewrite (state_derivative_run snap h y _ t E).
Qed.

Lemma state_derivative_is_vector_field_witness :
  [Vec sample64] !! 0%nat = Some (Vec sample64)
  /\ _state_derivative linear_snap 0%nat 0 [Vec sample64]
     = Ok (1%nat, [Vec sample64; Vec (mkState 0.5 0.25 0.125 (-1))]).
Proof.
  split; [reflexivity|].
  exact (state_derivative_is_vector_field linear_snap [Vec sample64] 0%nat
           1 0.5 0.25 0.125 0 eq_refl).
Defined.

(** C2. One RK4 step on an array holding [y] returns an array holding
    y + (dt/6)(k1 + 2 k2 + 2 k3 + k4), where k1 is the vector field at
    (y, t), k2 at (y + k1 dt/2, t + dt/2), k3 at (y + k2 dt/2, t + dt/2)
    and k4 at (y + k3 dt, t + dt). *)
Theorem rk4_step_formula {F : Type} `{Scalar F}
    (snap : F -> F -> F -> F -> F -> F) (h : heap F) (yl : loc)
    (y : State F) (t dt : F) :
  h !! yl = Some (Vec y) ->
  let f := vector_field snap in
  let k1 := f y t in
  let k2 := f (vadd y (vdivs (vmuls k1 dt) #!2)) (t +! dt /! #!2) in
  let k3 := f (vadd y (vdivs (vmuls k2 dt) #!2)) (t +! dt /! #!2) in
  let k4 := f (vadd y (vmuls k3 dt)) (t +! dt) in
  exists (l : loc) (h' : heap F),
    rk4_step snap yl t dt h = Ok (l, h')
    /\ h' !! l
       = Some (Vec (vadd y (smulv (dt /! #!6)
            (vadd (vadd (vadd k1 (smulv #!2 k2)) (smulv #!2 k3)) k4)))).
Proof.
  intros E f k1 k2 k3 k4.
  destruct (rk4_step_contract snap h yl y t dt E) as (l & h' & Er & El & _).
  exists l, h'. split; [exact Er | exact El].
Qed.

Lemma rk4_step_formula_witness :
  [Vec sample64] !! 0%nat = Some (Vec sample64)
  /\ exists (l : loc) (h' : heap float),
       rk4_step linear_snap 0%nat 0 0.5 [Vec sample64] = Ok (l, h')
       /\ h' !! l = Some (Vec (rk4_formula linear_snap sample64 0 0.5)).
Proof.
  split; [reflexivity|].
  exact (rk4_step_formula linear_snap [Vec sample64] 0%nat sample64 0 0.5
           eq_refl).
Defined.

(** C3. One symplectic step on an array holding [y] uses
    theta = 1/(2 - 2^(1/3)) and performs three sub-steps, each a drift of
    the first three components followed by one snap kick of the fourth,
    with (drift, kick) coefficients (theta dt/2, theta dt), then
    ((1 - theta) dt/2, (1 - 2 theta) dt), then ((1 - theta) dt/2, theta dt),
    the kicks evaluated at times t, t + theta dt and t + (1 - theta) dt,
    and closes with a drift by theta dt/2. The array then holds the
    result. *)
Theorem symplectic_step_substeps {F : Type} `{Scalar F}
    (snap : F -> F -> F -> F -> F -> F) (h : heap F) (yl : loc)
    (y : State F) (t dt : F) :
  h !! yl = Some (Vec y) ->
  let th := (#!1 /! (#!2 -! cbrt2)) in
  let y1 := kick snap (th *! dt) t (drift (th *! dt /! #!2) y) in
  let y2 := kick snap ((#!1 -! #!2 *! th) *! dt) (t +! th *! dt)
                 (drift ((#!1 -! th) *! dt /! #!2) y1) in
  let y3 := kick snap (th *! dt) (t +! (#!1 -! th) *! dt)
                 (drift ((#!1 -! th) *! dt /! #!2) y2) in
  exists (l : loc) (h' : heap F),
    symplectic_step snap yl t dt h = Ok (l, h')
    /\ h' !! l = Some (Vec (drift (th *! dt /! #!2) y3)).
Proof.
  intros E th y1 y2 y3.
  destruct (symplectic_step_contract snap h yl y t dt E)
    as (l & h' & Er & El & _).
  exists l, h'. split; [exact Er | exact El].
Qed.

Lemma symplectic_step_substeps_witness :
  [Vec sample64] !! 0%nat = Some (Vec sample64)
  /\ exists (l : loc) (h' : heap float),
       symplectic_step linear_snap 0%nat 0 0.5 [Vec sample64] = Ok (l, h')
       /\ h' !! l = Some (Vec (symplectic_formula linear_snap sample64 0 0.5)).
Proof.
  split; [reflexivity|].
  exact (symplectic_step_substeps linear_snap [Vec sample64] 0%nat sample64
           0 0.5 eq_refl).
Defined.

(** ** Trajectory generation *)




(** ** Section extraction *)

(** C5. For a coordinate index in {0, 1, 2, 3}, [poincare_section] returns
    without error, in trajectory order, one point for each consecutive pair
    (s1, s2) with (s1[idx] - threshold)(s2[idx] - threshold) < 0 strictly
    and direction (s2[idx] - s1[idx]) > 0, the point being
    s1 + t (s2 - s1) on all four components with
    t = (threshold - s1[idx]) / (s2[idx] - s1[idx]); no other pair
    contributes, so there are at most N - 1 points. For the trajectory
    (0,0,-1,0), (0,0,1,0) with index 2, threshold 0 and increasing
    direction the result is the single point (0,0,0,0). *)
Theorem poincare_section_points {F : Type} `{Scalar F}
    (states : list (State F)) (idx : Z) (threshold : F) (direction : Z) :
  (0 <= idx < 4)%Z ->
  poincare_section states idx threshold direction
  = Ok (map (crossing_point idx threshold)
            (List.filter (crosses idx threshold direction)
                         (consecutive states)))
  /\ (length (List.filter (crosses idx threshold direction)
                          (consecutive states))
      <= length states - 1)%nat
  /\ poincare_section [mkState 0 0 (-1) 0; mkState 0 0 1 0] 2 0 1
     = Ok [mkState 0 0 0 0].
Proof.
  intros Hr. split; [|split].
  - unfold poincare_section.
    pose proof (section_loop_run idx threshold direction states
                  ltac:(lia) [] []) as E.
    simpl in E. exact E.
  - rewrite <- consecutive_length. apply List.filter_length_le.
  - reflexivity.
Qed.

Lemma poincare_section_points_witness :
  (0 <= 2 < 4)%Z
  /\ poincare_section
       [mkState 1 0 (-1) 0; mkState 3 2 1 4; mkState 1 0 (-1) 0] 2 0 1
     = Ok [mkState 2 1 0 2].
Proof.
  split; [lia|].
  exact (proj1 (poincare_section_points
                  [mkState 1 0 (-1) 0; mkState 3 2 1 4; mkState 1 0 (-1) 0]
                  2 0 1 ltac:(lia))).
Defined.

(** C8, as the code has it. [poincare_section] does not validate the
    index. An index below -4 or above 3 makes the first row access raise
    IndexError when the trajectory has two states or more, and goes
    unnoticed when it has fewer; an index from -4 to -1 is accepted and
    selects component index + 4. *)
Theorem poincare_section_index_unchecked {F : Type} `{Scalar F}
    (states : list (State F)) (idx : Z) (threshold : F) (direction : Z) :
  ((idx < -4 \/ 4 <= idx)%Z ->
     poincare_section states idx threshold direction
     = if decide (2 <= length states)%nat then Err IndexError else Ok [])
  /\ ((-4 <= idx < 0)%Z ->
        poincare_section states idx threshold direction
        = poincare_section states (idx + 4) threshold direction).
Proof.
  split.
  - apply section_out_of_range.
  - intros Hr. unfold poincare_section. apply section_loop_ext.
    intros i ps. unfold section_body.
    destruct (getitem states i) as [s1|e]; [|reflexivity].
    destruct (getitem states (i + 1)) as [s2|e]; [|reflexivity].
    simpl. now rewrite !(getitem4_negative _ idx Hr).
Qed.

Lemma poincare_section_index_unchecked_witness :
  ((5 < -4 \/ 4 <= 5)%Z
   /\ poincare_section [mkState 0 0 (-1) 0; mkState 0 0 1 0] 5 0 1
      = Err IndexError)
  /\ ((-4 <= -2 < 0)%Z
      /\ poincare_section [mkState 0 0 (-1) 0; mkState 0 0 1 0] (-2) 0 1
         = poincare_section [mkState 0 0 (-1) 0; mkState 0 0 1 0] 2 0 1).
Proof.
  split; (split; [lia|]).
  - exact (proj1 (poincare_section_index_unchecked
                    [mkState 0 0 (-1) 0; mkState 0 0 1 0] 5 0 1)
                 ltac:(lia)).
  - exact (proj2 (poincare_section_index_unchecked
                    [mkState 0 0 (-1) 0; mkState 0 0 1 0] (-2) 0 1)
                 ltac:(lia)).
Defined.

(** Two calls with an index outside {0, 1, 2, 3} that return normally: the
    index -2 yields the crossing point of component 2, and the index 5 on a
    one-state trajectory yields the empty section. *)
Lemma poincare_section_accepts_bad_index :
  poincare_section [mkState 0 0 (-1) 0; mkState 0 0 1 0] (-2) 0 1
  = Ok [mkState 0 0 0 0]
  /\ poincare_section [mkState 0 0 (-1) 0] 5 0 1 = Ok [].
Proof. split; reflexivity. Qed.

(** ** Parameter and divergence checks *)




(** C7, as the code has it. [solve] never looks at the values it records:
    whenever the time grid can be built the run completes, and a state with
    a non-finite component is recorded at its index like any other. *)
Theorem solve_records_non_finite_states
    (snap : float -> float -> float -> float -> float -> float)
    (h : heap float) (y0 : loc) (s0 : State float) (start stop dt : float)
    (method : string) (tv : list float) (i : nat) :
  h !! y0 = Some (Vec s0) ->
  arange start stop dt = Ok tv ->
  (i < length tv)%nat ->
  all_finite (state_before snap method s0 start dt i) = false ->
  exists (h' : heap float) (rows : list (State float)),
    solve snap y0 (start, stop) dt method h = Ok ((tv, length h), h')
    /\ h' !! length h = Some (Mat rows)
    /\ length rows = length tv
    /\ rows !! i = Some (state_before snap method s0 start dt i).
Proof.
  intros Ey0 E Hi _.
  destruct (solve_upto_run snap h y0 s0 start stop dt method tv (length tv)
              Ey0 E) as (h' & rows & Erun & Em & Hlen & Hrows & _).
  exists h', rows.
  rewrite (solve_as_upto snap h y0 start stop dt method tv E).
  repeat split; try assumption.
  apply Hrows. rewrite Nat.min_id. exact Hi.
Qed.

Lemma solve_records_non_finite_states_witness :
  [Vec fast64] !! 0%nat = Some (Vec fast64)
  /\ arange 0 2 1 = Ok [0; 1]
  /\ (1 < length [0; 1])%nat
  /\ all_finite (state_before linear_snap "rk4" fast64 0 1 1) = false
  /\ exists (h' : heap float) (rows : list (State float)),
       solve linear_snap 0%nat (0, 2) 1 "rk4" [Vec fast64]
       = Ok (([0; 1], 1%nat), h')
       /\ h' !! 1%nat = Some (Mat rows)
       /\ length rows = 2%nat
       /\ rows !! 1%nat = Some (state_before linear_snap "rk4" fast64 0 1 1).
Proof.
  split; [reflexivity|]. split; [reflexivity|].
  split; [simpl; lia|]. split; [reflexivity|].
  exact (solve_records_non_finite_states linear_snap [Vec fast64] 0%nat
           fast64 0 2 1 "rk4" [0; 1] 1%nat eq_refl eq_refl
           ltac:(simpl; lia) eq_refl).
Defined.

(** A run from a finite initial state whose second recorded state has an
    infinite position: [solve] returns it without any error. *)
Lemma solve_returns_non_finite_data :
  exists (h' : heap float) (s : State float),
    solve linear_snap 0%nat (0, 2) 1 "rk4" [Vec fast64]
    = Ok (([0; 1], 1%nat), h')
    /\ h' !! 1%nat = Some (Mat [fast64; s])
    /\ all_finite fast64 = true
    /\ PrimFloat.is_infinity (s_x s) = true.
Proof.
  eexists _, _. split; [vm_compute; reflexivity|].
  split; [vm_compute; reflexivity|].
  split; reflexivity.
Qed.

(** ** Aliasing of state arrays *)

(** C9 at a concrete call. On the array (1, 0.5, 0.25, 0.125) with t = 0
    and dt = 0.5, [symplectic_step] returns the very reference it was
    given, and the array behind it no longer holds its position 1; on the
    same input [rk4_step] returns a new reference and leaves the array as
    it was. *)
Theorem symplectic_step_overwrites_input :
  (exists s' : State float,
     symplectic_step linear_snap 0%nat 0 0.5 [Vec sample64]
     = Ok (0%nat, [Vec s'])
     /\ PrimFloat.eqb (s_x s') (s_x sample64) = false
     /\ PrimFloat.ltb (s_x sample64) (s_x s') = true)
  /\ (exists h' : heap float,
        rk4_step linear_snap 0%nat 0 0.5 [Vec sample64] = Ok (8%nat, h')
        /\ h' !! 0%nat = Some (Vec sample64)).
Proof.
  split.
  - eexists. split; [vm_compute; reflexivity|]. split; reflexivity.
  - eexists. split; [vm_compute; reflexivity|]. reflexivity.
Qed.

(** C10. In a run of [solve] with any method, interrupted after any number
    k of iterations of its loop or run to its end, every row i < k of the
    matrix of recorded states holds the state as it was before the i-th
    step, so no later step alters a recorded row; and the array the caller
    passed as initial state holds what it held before the call. *)
Theorem solve_records_are_stable {F : Type} `{Scalar F}
    (snap : F -> F -> F -> F -> F -> F) (h : heap F) (y0 : loc)
    (s0 : State F) (start stop dt : F) (method : string) (tv : list F) :
  h !! y0 = Some (Vec s0) ->
  arange start stop dt = Ok tv ->
  solve snap y0 (start, stop) dt method h
  = solve_upto snap (length tv) y0 (start, stop) dt method h
  /\ forall k : nat,
       exists (h' : heap F) (rows : list (State F)),
         solve_upto snap k y0 (start, stop) dt method h
         = Ok ((tv, length h), h')
         /\ h' !! length h = Some (Mat rows)
         /\ (forall i : nat, (i < Nat.min k (length tv))%nat ->
               rows !! i = Some (state_before snap method s0 start dt i))
         /\ h' !! y0 = Some (Vec s0).
Proof.
  intros Ey0 E. split; [now apply solve_as_upto|].
  intros k.
  destruct (solve_upto_run snap h y0 s0 start stop dt method tv k Ey0 E)
    as (h' & rows & Erun & Em & _ & Hrows & Hframe).
  exists h', rows. repeat split; auto.
Qed.

Lemma solve_records_are_stable_witness :
  [Vec sample64] !! 0%nat = Some (Vec sample64)
  /\ arange 0 10 4 = Ok [0; 4; 8]
  /\ solve linear_snap 0%nat (0, 10) 4 "symplectic" [Vec sample64]
     = solve_upto linear_snap 3 0%nat (0, 10) 4 "symplectic" [Vec sample64]
  /\ forall k : nat,
       exists (h' : heap float) (rows : list (State float)),
         solve_upto linear_snap k 0%nat (0, 10) 4 "symplectic" [Vec sample64]
         = Ok (([0; 4; 8], 1%nat), h')
         /\ h' !! 1%nat = Some (Mat rows)
         /\ (forall i : nat, (i < Nat.min k 3)%nat ->
               rows !! i
               = Some (state_before linear_snap "symplectic" sample64 0 4 i))
         /\ h' !! 0%nat = Some (Vec sample64).
Proof.
  split; [reflexivity|]. split; [reflexivity|].
  exact (solve_records_are_stable linear_snap [Vec sample64] 0%nat sample64
           0 10 4 "symplectic" [0; 4; 8] eq_refl eq_refl).
Defined.

(** * Further properties of the solver and of the section extractor *)

(** ** What the steps do to the store *)

(** [rk4_step] only allocates: the store after the call is the store
    before it followed by new arrays, and the reference returned is one of
    the new ones. *)
Theorem rk4_step_only_allocates {F : Type} `{Scalar F}
    (snap : F -> F -> F -> F -> F -> F) (h : heap F) (y : loc)
    (s : State F) (t dt : F) :
  h !! y = Some (Vec s) ->
  exists (l : loc) (news : list (ndarray F)),
    rk4_step snap y t dt h = Ok (l, h ++ news)
    /\ (length h <= l < length h + length news)%nat
    /\ forall (l0 : loc) (o : ndarray F),
         h !! l0 = Some o -> (h ++ news) !! l0 = Some o.
Proof.
  intros E. exists (length h + 7)%nat, (rk4_allocs snap s t dt).
  split; [now apply rk4_step_run|].
  split; [simpl; lia|].
  intros l0 o El. now apply lookup_app_l_Some.
Qed.

Lemma rk4_step_only_allocates_witness :
  [Vec sample64] !! 0%nat = Some (Vec sample64)
  /\ exists (l : loc) (news : list (ndarray float)),
       rk4_step linear_snap 0%nat 0 0.5 [Vec sample64]
       = Ok (l, [Vec sample64] ++ news)
       /\ (length [Vec sample64] <= l < length [Vec sample64] + length news)%nat
       /\ forall (l0 : loc) (o : ndarray float),
            [Vec sample64] !! l0 = Some o ->
            ([Vec sample64] ++ news) !! l0 = Some o.
Proof.
  split; [reflexivity|].
  exact (rk4_step_only_allocates linear_snap [Vec sample64] 0%nat sample64
           0 0.5 eq_refl).
Defined.

(** [_forest_ruth_substep] works in place: it returns the reference it was
    given, the store keeps its size, every other array keeps its value, and
    the array itself holds the drift computed from the old components
    followed by the kick computed from the drifted ones. *)
Theorem forest_ruth_substep_in_place {F : Type} `{Scalar F}
    (snap : F -> F -> F -> F -> F -> F) (h : heap F) (y : loc)
    (x v a j t dt_pos dt_vel : F) :
  h !! y = Some (Vec (mkState x v a j)) ->
  let x' := x +! dt_pos *! v in
  let v' := v +! dt_pos *! a in
  let a' := a +! dt_pos *! j in
  exists h' : heap F,
    _forest_ruth_substep snap y t dt_pos dt_vel h = Ok (y, h')
    /\ length h' = length h
    /\ h' !! y = Some (Vec (mkState x' v' a'
                              (j +! dt_vel *! snap x' v' a' j t)))
    /\ forall l : loc, l <> y -> h' !! l = h !! l.
Proof.
  intros E x' v' a'.
  eexists. split; [now apply forest_ruth_substep_run with (1 := E)|].
  split; [apply length_insert|].
  split; [now apply insert_lookup_same with (1 := E)|].
  intros l Hl. now apply list_lookup_insert_ne.
Qed.

Lemma forest_ruth_substep_in_place_witness :
  [Vec rest64; Vec sample64] !! 1%nat = Some (Vec (mkState 1 0.5 0.25 0.125))
  /\ exists h' : heap float,
       _forest_ruth_substep linear_snap 1%nat 0 2 4 [Vec rest64; Vec sample64]
       = Ok (1%nat, h')
       /\ length h' = 2%nat
       /\ h' !! 1%nat = Some (Vec (mkState 2 1 0.5 (-7.875)))
       /\ forall l : loc, l <> 1%nat ->
            h' !! l = [Vec rest64; Vec sample64] !! l.
Proof.
  split; [reflexivity|].
  exact (forest_ruth_substep_in_place linear_snap [Vec rest64; Vec sample64]
           1%nat 1 0.5 0.25 0.125 0 2 4 eq_refl).
Defined.

(** [symplectic_step] works in place for every input: the reference it
    returns is its argument, no array is allocated, and no array other
    than the argument changes. *)
Theorem symplectic_step_in_place {F : Type} `{Scalar F}
    (snap : F -> F -> F -> F -> F -> F) (h : heap F) (y : loc)
    (s : State F) (t dt : F) :
  h !! y = Some (Vec s) ->
  exists h' : heap F,
    symplectic_step snap y t dt h = Ok (y, h')
    /\ length h' = length h
    /\ forall l : loc, l <> y -> h' !! l = h !! l.
Proof.
  intros E. eexists. split; [now apply symplectic_step_run with (1 := E)|].
  split; [apply length_insert|].
  intros l Hl. now apply list_lookup_insert_ne.
Qed.

Lemma symplectic_step_in_place_witness :
  [Vec rest64; Vec sample64] !! 1%nat = Some (Vec sample64)
  /\ exists h' : heap float,
       symplectic_step linear_snap 1%nat 0 0.5 [Vec rest64; Vec sample64]
       = Ok (1%nat, h')
       /\ length h' = 2%nat
       /\ forall l : loc, l <> 1%nat ->
            h' !! l = [Vec rest64; Vec sample64] !! l.
Proof.
  split; [reflexivity|].
  exact (symplectic_step_in_place linear_snap [Vec rest64; Vec sample64]
           1%nat sample64 0 0.5 eq_refl).
Defined.

(** ** Runs of [solve] side by side *)

Section RunFacts.
Context {F : Type} `{Scalar F}.
Variable snap : F -> F -> F -> F -> F -> F.

(** A run whose grid can be built: the matrix it returns, in full. *)
Lemma solve_run (h : heap F) (y0 : loc) (s0 : State F) (start stop dt : F)
    (method : string) (tv : list F) :
  h !! y0 = Some (Vec s0) ->
  arange start stop dt = Ok tv ->
  exists h' : heap F,
    solve snap y0 (start, stop) dt method h = Ok ((tv, length h), h')
    /\ h' !! length h
       = Some (Mat (map (state_before snap method s0 start dt)
                        (seq 0 (length tv))))
    /\ forall (l : loc) (o : ndarray F), h !! l = Some o -> h' !! l = Some o.
Proof.
  intros Ey0 E.
  destruct (solve_upto_run snap h y0 s0 start stop dt method tv (length tv)
              Ey0 E) as (h' & rows & Erun & Em & Hlen & Hrows & Hframe).
  exists h'. rewrite (solve_as_upto snap h y0 start stop dt method tv E).
  split; [exact Erun|]. split; [|exact Hframe].
  rewrite Em. do 2 f_equal. apply list_eq. intros i.
  rewrite Nat.min_id in Hrows.
  destruct (decide (i < length tv)%nat) as [Hi|Hi].
  - rewrite Hrows by exact Hi.
    now rewrite list_lookup_fmap, lookup_seq_lt.
  - rewrite !(proj2 (lookup_ge_None _ _)); [reflexivity| |].
    + rewrite length_map, length_seq. lia.
    + lia.
Qed.

Lemma solve_ok_inv (h h' : heap F) (y0 m : loc) (s0 : State F)
    (start stop dt : F) (method : string) (tv : list F) :
  h !! y0 = Some (Vec s0) ->
  solve snap y0 (start, stop) dt method h = Ok ((tv, m), h') ->
  arange start stop dt = Ok tv.
Proof.
  intros Ey0 Erun. destruct (arange start stop dt) as [tv0|e] eqn:E.
  - destruct (solve_run h y0 s0 start stop dt method tv0 Ey0 E)
      as (h0 & Erun0 & _).
    rewrite Erun0 in Erun. now injection Erun as -> _ _.
  - unfold solve, bind, lift in Erun. now rewrite E in Erun.
Qed.

End RunFacts.

(** The trajectory does not depend on the store the run starts from: a run
    that succeeds from one store succeeds from every store in which the
    initial array holds the same state, with the same time grid and a
    matrix of the same content. *)
Theorem solve_is_reproducible {F : Type} `{Scalar F}
    (snap : F -> F -> F -> F -> F -> F) (h1 h1' h2 : heap F)
    (y1 y2 m1 : loc) (s0 : State F) (t_span : F * F) (dt : F)
    (method : string) (tv : list F) :
  h1 !! y1 = Some (Vec s0) ->
  h2 !! y2 = Some (Vec s0) ->
  solve snap y1 t_span dt method h1 = Ok ((tv, m1), h1') ->
  exists (h2' : heap F) (m2 : loc) (rows : list (State F)),
    solve snap y2 t_span dt method h2 = Ok ((tv, m2), h2')
    /\ h1' !! m1 = Some (Mat rows)
    /\ h2' !! m2 = Some (Mat rows).
Proof.
  destruct t_span as [start stop]. intros E1 E2 Erun.
  pose proof (solve_ok_inv snap h1 h1' y1 m1 s0 start stop dt method tv
                E1 Erun) as E.
  destruct (solve_run snap h1 y1 s0 start stop dt method tv E1 E)
    as (k1 & Erun1 & Em1 & _).
  destruct (solve_run snap h2 y2 s0 start stop dt method tv E2 E)
    as (k2 & Erun2 & Em2 & _).
  rewrite Erun1 in Erun. injection Erun as <- <-.
  eexists k2, (length h2), _. split; [exact Erun2|]. split; eassumption.
Qed.

Local Abbreviation run_sym10 :=
  (solve linear_snap 0%nat (0, 10) 4 "symplectic" [Vec sample64]).

Lemma solve_is_reproducible_witness :
  [Vec sample64] !! 0%nat = Some (Vec sample64)
  /\ [Vec rest64; Vec sample64] !! 1%nat = Some (Vec sample64)
  /\ run_sym10 = Ok (([0; 4; 8], 1%nat), heap_after run_sym10)
  /\ exists (h2' : heap float) (m2 : loc) (rows : list (State float)),
       solve linear_snap 1%nat (0, 10) 4 "symplectic"
             [Vec rest64; Vec sample64]
       = Ok (([0; 4; 8], m2), h2')
       /\ heap_after run_sym10 !! 1%nat = Some (Mat rows)
       /\ h2' !! m2 = Some (Mat rows).
Proof.
  split; [reflexivity|]. split; [reflexivity|].
  split; [vm_compute; reflexivity|].
  refine (solve_is_reproducible (H := Binary64.scalar) linear_snap
            [Vec sample64] _ [Vec rest64; Vec sample64] 0%nat 1%nat 1%nat
            sample64 (0, 10) 4 "symplectic" [0; 4; 8] eq_refl eq_refl _).
  vm_compute; reflexivity.
Defined.

(** Two runs one after the other, as the sensitivity test makes them: the
    second run returns another matrix, leaves the matrix of the first run
    as it was, and both initial arrays keep their values. *)
Theorem solve_runs_do_not_interfere {F : Type} `{Scalar F}
    (snap : F -> F -> F -> F -> F -> F) (h ha hb : heap F)
    (ya yb ma mb : loc) (sa sb : State F) (span_a span_b : F * F)
    (dt_a dt_b : F) (method_a method_b : string) (tva tvb : list F) :
  h !! ya = Some (Vec sa) ->
  h !! yb = Some (Vec sb) ->
  solve snap ya span_a dt_a method_a h = Ok ((tva, ma), ha) ->
  solve snap yb span_b dt_b method_b ha = Ok ((tvb, mb), hb) ->
  ma <> mb
  /\ (exists rows : list (State F),
        ha !! ma = Some (Mat rows) /\ hb !! ma = Some (Mat rows))
  /\ hb !! ya = Some (Vec sa)
  /\ hb !! yb = Some (Vec sb).
Proof.
  destruct span_a as [start_a stop_a], span_b as [start_b stop_b].
  intros Ea Eb Erun_a Erun_b.
  pose proof (solve_ok_inv snap h ha ya ma sa _ _ _ _ _ Ea Erun_a) as Ga.
  destruct (solve_run snap h ya sa _ _ _ method_a _ Ea Ga)
    as (ka & Ra & Ma & Fa).
  rewrite Ra in Erun_a. injection Erun_a as <- <-.
  pose proof (Fa _ _ Eb) as Eb'.
  pose proof (solve_ok_inv snap ka hb yb mb sb _ _ _ _ _ Eb' Erun_b) as Gb.
  destruct (solve_run snap ka yb sb _ _ _ method_b _ Eb' Gb)
    as (kb & Rb & Mb & Fb).
  rewrite Rb in Erun_b. injection Erun_b as <- <-.
  split.
  { apply lookup_lt_Some in Ma. lia. }
  split; [eexists; split; [exact Ma | apply Fb; exact Ma]|].
  split; apply Fb; [apply Fa; exact Ea | exact Eb'].
Qed.

Local Abbreviation run_a :=
  (solve linear_snap 0%nat (0, 10) 4 "rk4" [Vec rest64; Vec sample64]).
Local Abbreviation run_b :=
  (solve linear_snap 1%nat (0, 1) 0.5 "symplectic" (heap_after run_a)).

Lemma solve_runs_do_not_interfere_witness :
  [Vec rest64; Vec sample64] !! 0%nat = Some (Vec rest64)
  /\ [Vec rest64; Vec sample64] !! 1%nat = Some (Vec sample64)
  /\ run_a = Ok (([0; 4; 8], 2%nat), heap_after run_a)
  /\ run_b = Ok (([0; 0.5], 28%nat), heap_after run_b)
  /\ 2%nat <> 28%nat
  /\ (exists rows : list (State float),
        heap_after run_a !! 2%nat = Some (Mat rows)
        /\ heap_after run_b !! 2%nat = Some (Mat rows))
  /\ heap_after run_b !! 0%nat = Some (Vec rest64)
  /\ heap_after run_b !! 1%nat = Some (Vec sample64).
Proof.
  split; [reflexivity|]. split; [reflexivity|].
  split; [vm_compute; reflexivity|]. split; [vm_compute; reflexivity|].
  refine (solve_runs_do_not_interfere (H := Binary64.scalar) linear_snap
            [Vec rest64; Vec sample64] _ _ 0%nat 1%nat 2%nat 28%nat
            rest64 sample64 (0, 10) (0, 1) 4 0.5 "rk4" "symplectic"
            [0; 4; 8] [0; 0.5] eq_refl eq_refl _ _);
    vm_compute; reflexivity.
Defined.

(** Runs that share the start, the step size, the method and the initial
    state agree on their common part: the grid and the states of the
    shorter run are the first entries of the longer one. *)
Theorem solve_shorter_run_is_prefix {F : Type} `{Scalar F}
    (snap : F -> F -> F -> F -> F -> F) (h1 h1' h2 h2' : heap F)
    (y1 y2 m1 m2 : loc) (s0 : State F) (start stop1 stop2 dt : F)
    (method : string) (tv1 tv2 : list F) :
  h1 !! y1 = Some (Vec s0) ->
  h2 !! y2 = Some (Vec s0) ->
  solve snap y1 (start, stop1) dt method h1 = Ok ((tv1, m1), h1') ->
  solve snap y2 (start, stop2) dt method h2 = Ok ((tv2, m2), h2') ->
  (length tv1 <= length tv2)%nat ->
  exists rows1 rows2 : list (State F),
    h1' !! m1 = Some (Mat rows1)
    /\ h2' !! m2 = Some (Mat rows2)
    /\ tv1 = take (length tv1) tv2
    /\ rows1 = take (length tv1) rows2.
Proof.
  intros E1 E2 R1 R2 Hle.
  pose proof (solve_ok_inv snap _ _ _ _ _ _ _ _ _ _ E1 R1) as G1.
  pose proof (solve_ok_inv snap _ _ _ _ _ _ _ _ _ _ E2 R2) as G2.
  destruct (solve_run snap h1 y1 s0 _ _ _ method _ E1 G1) as (k1 & Q1 & M1 & _).
  destruct (solve_run snap h2 y2 s0 _ _ _ method _ E2 G2) as (k2 & Q2 & M2 & _).
  rewrite Q1 in R1. injection R1 as <- <-.
  rewrite Q2 in R2. injection R2 as <- <-.
  eexists _, _. split; [exact M1|]. split; [exact M2|].
  apply arange_ok_inv in G1 as (n1 & _ & _ & ->).
  apply arange_ok_inv in G2 as (n2 & _ & _ & ->).
  rewrite !length_map, !length_seq in *.
  assert (Hseq : seq 0 (Z.to_nat n1) = take (Z.to_nat n1) (seq 0 (Z.to_nat n2))).
  { rewrite take_seq. f_equal. lia. }
  split; rewrite Hseq at 1; apply fmap_take.
Qed.

Local Abbreviation run_sym5 :=
  (solve linear_snap 0%nat (0, 5) 4 "symplectic" [Vec sample64]).

Lemma solve_shorter_run_is_prefix_witness :
  [Vec sample64] !! 0%nat = Some (Vec sample64)
  /\ run_sym5 = Ok (([0; 4], 1%nat), heap_after run_sym5)
  /\ run_sym10 = Ok (([0; 4; 8], 1%nat), heap_after run_sym10)
  /\ (length [0; 4] <= length [0; 4; 8])%nat
  /\ exists rows1 rows2 : list (State float),
       heap_after run_sym5 !! 1%nat = Some (Mat rows1)
       /\ heap_after run_sym10 !! 1%nat = Some (Mat rows2)
       /\ [0; 4] = take (length [0; 4]) [0; 4; 8]
       /\ rows1 = take (length [0; 4]) rows2.
Proof.
  split; [reflexivity|].
  split; [vm_compute; reflexivity|]. split; [vm_compute; reflexivity|].
  split; [simpl; lia|].
  refine (solve_shorter_run_is_prefix (H := Binary64.scalar) linear_snap
            [Vec sample64] _ [Vec sample64] _ 0%nat 0%nat 1%nat 1%nat
            sample64 0 5 10 4 "symplectic" [0; 4] [0; 4; 8]
            eq_refl eq_refl _ _ ltac:(simpl; lia));
    vm_compute; reflexivity.
Defined.

(** ** Sections of joined trajectories and of runs *)

Section SectionMoreFacts.
Context {F : Type} `{Scalar F}.

Lemma poincare_section_run (states : list (State F)) (idx : Z) (c : F)
    (d : Z) :
  (-4 <= idx < 4)%Z ->
  poincare_section states idx c d = Ok (section_points states idx c d).
Proof.
  intros Hr. unfold poincare_section.
  exact (section_loop_run idx c d states Hr [] []).
Qed.

Lemma consecutive_app (l1 l2 : list (State F)) (s : State F) :
  consecutive (l1 ++ s :: l2)
  = consecutive (l1 ++ [s]) ++ consecutive (s :: l2).
Proof.
  induction l1 as [|a l1 IH]; [reflexivity|].
  destruct l1 as [|b l1]; [reflexivity|].
  change (consecutive ((a :: b :: l1) ++ s :: l2))
    with ((a, b) :: consecutive ((b :: l1) ++ s :: l2)).
  rewrite IH. reflexivity.
Qed.

End SectionMoreFacts.

(** A trajectory cut at one of its states can be scanned in two parts: the
    section of the whole is the section of the part up to and including
    that state followed by the section of the part from that state on. *)
Theorem poincare_section_of_joined_parts {F : Type} `{Scalar F}
    (l1 l2 : list (State F)) (s : State F) (idx : Z) (threshold : F)
    (direction : Z) :
  (-4 <= idx < 4)%Z ->
  exists p1 p2 : list (State F),
    poincare_section (l1 ++ [s]) idx threshold direction = Ok p1
    /\ poincare_section (s :: l2) idx threshold direction = Ok p2
    /\ poincare_section (l1 ++ s :: l2) idx threshold direction
       = Ok (p1 ++ p2).
Proof.
  intros Hr. eexists _, _.
  split; [now apply poincare_section_run|].
  split; [now apply poincare_section_run|].
  rewrite poincare_section_run by exact Hr. f_equal.
  unfold section_points.
  now rewrite consecutive_app, List.filter_app, map_app.
Qed.

Lemma poincare_section_of_joined_parts_witness :
  (-4 <= 2 < 4)%Z
  /\ exists p1 p2 : list (State float),
       poincare_section ([mkState 1 0 (-1) 0] ++ [mkState 3 2 1 4]) 2 0 (-1)
       = Ok p1
       /\ poincare_section [mkState 3 2 1 4; mkState 1 0 (-1) 0] 2 0 (-1)
          = Ok p2
       /\ poincare_section
            ([mkState 1 0 (-1) 0] ++ [mkState 3 2 1 4; mkState 1 0 (-1) 0])
            2 0 (-1)
          = Ok (p1 ++ p2).
Proof.
  split; [lia|].
  exact (poincare_section_of_joined_parts [mkState 1 0 (-1) 0]
           [mkState 1 0 (-1) 0] (mkState 3 2 1 4) 2 0 (-1) ltac:(lia)).
Defined.

(** A run followed by the extraction of its section, as [main] chains
    them: once the grid can be built and the index addresses a component,
    the chain raises nothing, yields the crossings of the recorded states,
    at most one fewer than there are states, and leaves the caller's
    initial array as it was. *)
Theorem section_of_run_succeeds {F : Type} `{Scalar F}
    (snap : F -> F -> F -> F -> F -> F) (h : heap F) (y0 : loc)
    (s0 : State F) (start stop dt : F) (method : string) (tv : list F)
    (idx : Z) (threshold : F) (direction : Z) :
  h !! y0 = Some (Vec s0) ->
  arange start stop dt = Ok tv ->
  (-4 <= idx < 4)%Z ->
  exists (h' : heap F) (points : list (State F)),
    section_of_run snap y0 (start, stop) dt method idx threshold direction h
    = Ok (points, h')
    /\ points
       = section_points (map (state_before snap method s0 start dt)
                             (seq 0 (length tv)))
                        idx threshold direction
    /\ (length points <= length tv - 1)%nat
    /\ h' !! y0 = Some (Vec s0).
Proof.
  intros Ey0 E Hr.
  destruct (solve_run snap h y0 s0 start stop dt method tv Ey0 E)
    as (h' & Erun & Em & Hframe).
  eexists h', _. split; [|split; [reflexivity|split]].
  - unfold section_of_run.
    erewrite bind_run by exact Erun. simpl snd.
    erewrite bind_run by (unfold load_mat; rewrite Em; reflexivity).
    unfold lift. now rewrite poincare_section_run.
  - etransitivity; [apply section_points_bound|].
    now rewrite length_map, length_seq.
  - now apply Hframe.
Qed.

Lemma section_of_run_succeeds_witness :
  [Vec sample64] !! 0%nat = Some (Vec sample64)
  /\ arange 0 10 4 = Ok [0; 4; 8]
  /\ (-4 <= 2 < 4)%Z
  /\ exists (h' : heap float) (points : list (State float)),
       section_of_run linear_snap 0%nat (0, 10) 4 "rk4" 2 0 1 [Vec sample64]
       = Ok (points, h')
       /\ points
          = section_points (map (state_before linear_snap "rk4" sample64 0 4)
                                (seq 0 (length [0; 4; 8])))
                           2 0 1
       /\ (length points <= length [0; 4; 8] - 1)%nat
       /\ h' !! 0%nat = Some (Vec sample64).
Proof.
  split; [reflexivity|]. split; [reflexivity|]. split; [lia|].
  exact (section_of_run_succeeds linear_snap [Vec sample64] 0%nat sample64
           0 10 4 "rk4" [0; 4; 8] 2 0 1 eq_refl eq_refl ltac:(lia)).
Defined.

(** ** The side of the threshold the crossing states lie on *)

Section SectionGeometry.
Context {F : Type} `{Scalar F}.

Lemma consecutive_lookup (states : list (State F)) (s1 s2 : State F) :
  In (s1, s2) (consecutive states) <->
  exists i : nat, states !! i = Some s1 /\ states !! S i = Some s2.
Proof.
  induction states as [|u states IH]; [simpl; split; [tauto|]|].
  { intros (i & E & _). discriminate. }
  destruct states as [|w states].
  { simpl. split; [tauto|]. intros ([|i] & E1 & E2); discriminate. }
  change (consecutive (u :: w :: states))
    with ((u, w) :: consecutive (w :: states)).
  split.
  - intros [[= <- <-]|Hin].
    + exists 0%nat. split; reflexivity.
    + apply IH in Hin as (i & E1 & E2). exists (S i). split; assumption.
  - intros ([|i] & E1 & E2).
    + left. simpl in E1, E2. congruence.
    + right. apply IH. exists i. split; assumption.
Qed.

End SectionGeometry.

Section ExactSection.
Local Open Scope Q_scope.

Lemma exact_ltb (p q : Q) : fltb p q = true <-> p < q.
Proof.
  cbn [fltb Exact.scalar]. rewrite negb_true_iff.
  split.
  - intros E. apply Qnot_le_lt. intros Hle.
    apply Qle_bool_iff in Hle. congruence.
  - intros Hlt. destruct (Qle_bool q p) eqn:E; [|reflexivity].
    apply Qle_bool_iff in E. now apply Qlt_not_le in Hlt.
Qed.

Lemma straddle_cases (a b c : Q) :
  (a - c) * (b - c) < 0 -> (a < c /\ c < b) \/ (b < c /\ c < a).
Proof.
  intros Hp.
  destruct (Q_dec a c) as [[Ha|Ha]|Ha]; destruct (Q_dec b c) as [[Hb|Hb]|Hb].
  - exfalso. assert (0 < (c - a) * (c - b)) by (apply Qmult_lt_0_compat; lra).
    assert (E : (a - c) * (b - c) == (c - a) * (c - b)) by ring.
    rewrite E in Hp. lra.
  - left. split; assumption.
  - exfalso. rewrite Hb in Hp.
    assert (E : (a - c) * (c - c) == 0) by ring. rewrite E in Hp.
    now apply Qlt_irrefl in Hp.
  - right. split; assumption.
  - exfalso. assert (0 < (a - c) * (b - c)) by (apply Qmult_lt_0_compat; lra).
    lra.
  - exfalso. rewrite Hb in Hp.
    assert (E : (a - c) * (c - c) == 0) by ring. rewrite E in Hp.
    now apply Qlt_irrefl in Hp.
  - exfalso. rewrite Ha in Hp.
    assert (E : (c - c) * (b - c) == 0) by ring. rewrite E in Hp.
    now apply Qlt_irrefl in Hp.
  - exfalso. rewrite Ha in Hp.
    assert (E : (c - c) * (b - c) == 0) by ring. rewrite E in Hp.
    now apply Qlt_irrefl in Hp.
  - exfalso. rewrite Ha in Hp.
    assert (E : (c - c) * (b - c) == 0) by ring. rewrite E in Hp.
    now apply Qlt_irrefl in Hp.
Qed.

End ExactSection.

Section ExactSectionPoints.
Local Open Scope Q_scope.

Lemma exact_crosses (idx : Z) (c : Q) (d : Z) (s1 s2 : State Q) (a b : Q) :
  getitem4 s1 idx = Ok a -> getitem4 s2 idx = Ok b ->
  crosses idx c d (s1, s2) = true
  <-> (a - c) * (b - c) < 0 /\ 0 < inject_Z d * (b - a).
Proof.
  intros Ea Eb. unfold crosses. simpl fst. simpl snd. rewrite Ea, Eb.
  rewrite andb_true_iff, !exact_ltb. reflexivity.
Qed.

Lemma exact_crossing_point (idx : Z) (c : Q) (s1 s2 : State Q) (a b : Q) :
  getitem4 s1 idx = Ok a -> getitem4 s2 idx = Ok b ->
  crossing_point idx c (s1, s2)
  = vadd s1 (smulv ((c - a) / (b - a)) (vsub s2 s1)).
Proof.
  intros Ea Eb. unfold crossing_point. simpl fst. simpl snd.
  now rewrite Ea, Eb.
Qed.

(** Every point of a section comes from a pair of consecutive states that
    crosses. *)
Lemma section_point_origin (states : list (State Q)) (idx : Z) (c : Q)
    (d : Z) (pts : list (State Q)) (p : State Q) :
  poincare_section states idx c d = Ok pts -> In p pts ->
  exists (i : nat) (s1 s2 : State Q) (a b : Q),
    states !! i = Some s1 /\ states !! S i = Some s2
    /\ getitem4 s1 idx = Ok a /\ getitem4 s2 idx = Ok b
    /\ (a - c) * (b - c) < 0 /\ 0 < inject_Z d * (b - a)
    /\ p = vadd s1 (smulv ((c - a) / (b - a)) (vsub s2 s1)).
Proof.
  intros Erun Hin.
  destruct (decide (-4 <= idx < 4)%Z) as [Hr|Hr].
  - rewrite poincare_section_run in Erun by exact Hr.
    injection Erun as <-. unfold section_points in Hin.
    apply in_map_iff in Hin as ([s1 s2] & <- & Hf).
    apply List.filter_In in Hf as (Hc & Hx).
    apply consecutive_lookup in Hc as (i & E1 & E2).
    destruct (getitem4_in_range s1 idx Hr) as [a Ea].
    destruct (getitem4_in_range s2 idx Hr) as [b Eb].
    apply (exact_crosses idx c d s1 s2 a b Ea Eb) in Hx as (Hp & Hd).
    exists i, s1, s2, a, b. repeat (split; [assumption|]).
    now apply exact_crossing_point.
  - rewrite section_out_of_range in Erun by lia.
    destruct (decide (2 <= length states)%nat); [discriminate|].
    injection Erun as <-. destruct Hin.
Qed.

End ExactSectionPoints.

(** In exact arithmetic a point is reported only for a pair of consecutive
    states that lie strictly on opposite sides of the threshold, so a
    state exactly on the threshold never produces one; with direction 1
    the pair goes from below to above, with direction -1 from above to
    below. *)
Theorem section_points_respect_direction (states : list (State Q)) (idx : Z)
    (threshold : Q) (direction : Z) (pts : list (State Q)) (p : State Q) :
  poincare_section states idx threshold direction = Ok pts ->
  In p pts ->
  exists (i : nat) (s1 s2 : State Q) (a b : Q),
    states !! i = Some s1 /\ states !! S i = Some s2
    /\ getitem4 s1 idx = Ok a /\ getitem4 s2 idx = Ok b
    /\ p = vadd s1 (smulv ((threshold - a) / (b - a))%Q (vsub s2 s1))
    /\ ~ (a == threshold)%Q /\ ~ (b == threshold)%Q
    /\ (direction = 1%Z -> (a < threshold)%Q /\ (threshold < b)%Q)
    /\ (direction = (-1)%Z -> (b < threshold)%Q /\ (threshold < a)%Q).
Proof.
  intros Erun Hin.
  destruct (section_point_origin states idx threshold direction pts p
              Erun Hin)
    as (i & s1 & s2 & a & b & E1 & E2 & Ea & Eb & Hp & Hd & ->).
  pose proof (straddle_cases a b threshold Hp) as Hcases.
  exists i, s1, s2, a, b. repeat (split; [assumption || reflexivity|]).
  split; [destruct Hcases as [[? ?]|[? ?]]; lra|].
  split; [destruct Hcases as [[? ?]|[? ?]]; lra|].
  split; intros ->; cbv [inject_Z] in Hd;
    destruct Hcases as [[? ?]|[? ?]]; split; lra.
Qed.

Lemma section_points_respect_direction_witness :
  poincare_section [mkState 1 0 (-1) 0; mkState 3 2 3 4]%Q 2 0%Q 1
  = Ok [mkState ((1 # 1) + (1 # 4) * (3 - 1)) (0 + (1 # 4) * (2 - 0))
                (-1 + (1 # 4) * (3 - -1)) (0 + (1 # 4) * (4 - 0))]%Q
  /\ exists (i : nat) (s1 s2 : State Q) (a b : Q),
       [mkState 1 0 (-1) 0; mkState 3 2 3 4]%Q !! i = Some s1
       /\ [mkState 1 0 (-1) 0; mkState 3 2 3 4]%Q !! S i = Some s2
       /\ getitem4 s1 2 = Ok a /\ getitem4 s2 2 = Ok b
       /\ (a < 0)%Q /\ (0 < b)%Q.
Proof.
  assert (E : poincare_section [mkState 1 0 (-1) 0; mkState 3 2 3 4]%Q 2 0%Q 1
              = Ok [mkState ((1 # 1) + (1 # 4) * (3 - 1))
                            (0 + (1 # 4) * (2 - 0))
                            (-1 + (1 # 4) * (3 - -1))
                            (0 + (1 # 4) * (4 - 0))]%Q)
    by (vm_compute; reflexivity).
  split; [exact E|].
  destruct (section_points_respect_direction _ 2 0%Q 1 _ _ E
              (or_introl eq_refl))
    as (i & s1 & s2 & a & b & E1 & E2 & Ea & Eb & _ & _ & _ & Hup & _).
  destruct (Hup eq_refl) as (Ha & Hb).
  exists i, s1, s2, a, b. repeat split; assumption.
Defined.
